(** * Ransomware Monte Carlo risk scripts: model and verified properties

    The three scripts (baseline, mitigation, and the combined
    [Ransomeware8]) share one frequency/magnitude loop over numpy's
    global random generator, followed by summary statistics and a loss
    exceedance curve.

    Numbers.  The scripts compute in IEEE doubles.  A finite double is
    represented here by the rational it denotes and arithmetic on finite
    values is exact (rounding is not modelled); the non-finite values that
    numpy can hand back ([nan], [inf]) are explicit constructors of
    [npfloat].  Comparisons of rationals are up to [Qeq].

    Randomness.  [np.random] is a process-wide generator.  It is modelled
    as an explicit state: the full sequence of unit-interval draws the
    generator will produce, and the number of draws consumed so far. *)

From Stdlib Require Import String.
From Stdlib Require Import QArith Qround Lqa Lia Bool Arith List.
From Stdlib Require Import Sorting.Sorted Sorting.Permutation.
Import ListNotations.

Set Warnings "-abstract-large-number".

Local Open Scope Q_scope.

(** ** Python exceptions and numpy values *)

Inductive exn : Type :=
| IndexError   (* list index out of range *)
| ValueError.  (* zero-size array to reduction operation *)

Inductive result (A : Type) : Type :=
| Ok (a : A)
| Raise (e : exn).

Arguments Ok {A} a.
Arguments Raise {A} e.

(** A numpy float64 scalar: finite, infinite (with sign), or not-a-number. *)
Inductive npfloat : Type :=
| Fin (q : Q)
| Inf (negative : bool)
| NaN.

(** [x > y] on finite values, as a boolean. *)
Definition Qgtb (x y : Q) : bool := negb (Qle_bool x y).

Definition Qsign_neg (q : Q) : bool := Qgtb 0 q.

Definition fsub (a b : npfloat) : npfloat :=
  match a, b with
  | Fin x, Fin y => Fin (x - y)
  | NaN, _ | _, NaN => NaN
  | Inf s, Inf t => if Bool.eqb s t then NaN else Inf s
  | Inf s, Fin _ => Inf s
  | Fin _, Inf t => Inf (negb t)
  end.

Definition fmul (a b : npfloat) : npfloat :=
  match a, b with
  | Fin x, Fin y => Fin (x * y)
  | NaN, _ | _, NaN => NaN
  | Inf s, Inf t => Inf (xorb s t)
  | Inf s, Fin y => if Qeq_bool y 0 then NaN else Inf (xorb s (Qsign_neg y))
  | Fin x, Inf t => if Qeq_bool x 0 then NaN else Inf (xorb (Qsign_neg x) t)
  end.

(** Division of numpy scalars never raises: a zero divisor gives [inf]
    or [nan] (the sign of a zero divisor is taken as positive). *)
Definition fdiv (a b : npfloat) : npfloat :=
  match a, b with
  | Fin x, Fin y =>
      if Qeq_bool y 0
      then (if Qeq_bool x 0 then NaN else Inf (Qsign_neg x))
      else Fin (x / y)
  | NaN, _ | _, NaN => NaN
  | Inf _, Inf _ => NaN
  | Inf s, Fin y => Inf (xorb s (Qsign_neg y))
  | Fin _, Inf _ => Fin 0
  end.

(** ** The random generator and the effect monad *)

Record rng : Type := mkRng {
  draws : nat -> Q;   (* the sequence produced by the generator *)
  pos : nat           (* how many draws have been consumed *)
}.

(** Contract of [np.random.random]: every draw lies in [[0, 1)]. *)
Definition unit_draws (g : rng) : Prop :=
  forall i : nat, 0 <= draws g i /\ draws g i < 1.

(** Computations that read the generator and may raise.  The generator
    state survives an exception, as a global does. *)
Definition M (A : Type) : Type := rng -> result A * rng.

Definition ret {A : Type} (a : A) : M A := fun g => (Ok a, g).

Definition bind {A B : Type} (m : M A) (k : A -> M B) : M B :=
  fun g =>
    match m g with
    | (Ok a, g') => k a g'
    | (Raise e, g') => (Raise e, g')
    end.

Definition raise {A : Type} (e : exn) : M A := fun g => (Raise e, g).

Declare Scope py_scope.
Delimit Scope py_scope with py.
Notation "x <- m ;; k" := (bind m (fun x => k))
  (at level 61, m at next level, right associativity) : py_scope.

Local Open Scope py_scope.

(** [np.random.random()] *)
Definition random : M Q :=
  fun g => (Ok (draws g (pos g)), mkRng (draws g) (S (pos g))).

(** [np.random.uniform(low, high)]: [low + (high - low) * random()]. *)
Definition uniform (low high : Q) : M Q :=
  u <- random ;;
  ret (low + (high - low) * u).

(** [l[i]] on a Python list, for a non-negative literal index. *)
Definition getitem (l : list Q) (i : nat) : M Q :=
  match nth_error l i with
  | Some x => ret x
  | None => raise IndexError
  end.

(** [losses = []; for _ in range(n): ... losses.append(x)]: the body is
    run [n] times and the appended values are kept in trial order (the
    first trial's value heads the list).  A [continue] after an append is
    the body returning that value. *)
Fixpoint for_append (n : nat) (body : M Q) : M (list Q) :=
  match n with
  | O => ret []
  | S k =>
      x <- body ;;
      xs <- for_append k body ;;
      ret (x :: xs)
  end.

(** ** Baseline and mitigation scripts: [run_simulation]

    Both [Ransomeware_baseline_montecarlo_calc.py] and
    [Ransomeware_mitigation_montecarlo_calc.py] define the same function;
    the module globals it reads are the variables of the section. *)

Section MonteCarloCalc.

Variable NUM_SIMULATIONS : nat.
Variable DAILY_IMPACT_RANGE : list Q.

(** Body of the [for] loop of [run_simulation]: the loss one trial appends. *)
Definition run_simulation_trial (prob_attack : Q) (days_range : list Q) : M Q :=
  u <- random ;;
  if Qgtb u prob_attack then ret 0
  else
    d0 <- getitem days_range 0 ;;
    d1 <- getitem days_range 1 ;;
    days <- uniform d0 d1 ;;
    c0 <- getitem DAILY_IMPACT_RANGE 0 ;;
    c1 <- getitem DAILY_IMPACT_RANGE 1 ;;
    daily_loss <- uniform c0 c1 ;;
    ret (days * daily_loss).

Definition run_simulation (prob_attack : Q) (days_range : list Q) : M (list Q) :=
  for_append NUM_SIMULATIONS (run_simulation_trial prob_attack days_range).

End MonteCarloCalc.

(** [losses[losses > 0]]: the impact-only subsequence. *)
Definition impact (losses : list Q) : list Q := filter (fun x => Qgtb x 0) losses.

(** ** numpy statistics and array helpers *)

Fixpoint Qsum (l : list Q) : Q :=
  match l with
  | [] => 0
  | x :: t => x + Qsum t
  end.

Definition Qnat (n : nat) : Q := inject_Z (Z.of_nat n).

(** [np.mean]: sum over count.  On a zero-size array numpy divides 0.0 by
    0 and returns [nan] (with a RuntimeWarning, no exception). *)
Definition np_mean (a : list Q) : npfloat :=
  fdiv (Fin (Qsum a)) (Fin (Qnat (length a))).

Definition Qminb (x y : Q) : Q := if Qle_bool x y then x else y.
Definition Qmaxb (x y : Q) : Q := if Qle_bool x y then y else x.

(** [np.min] / [np.max]: reductions without identity; a zero-size array
    raises ValueError. *)
Definition np_min (a : list Q) : result Q :=
  match a with
  | [] => Raise ValueError
  | x :: t => Ok (fold_left Qminb t x)
  end.

Definition np_max (a : list Q) : result Q :=
  match a with
  | [] => Raise ValueError
  | x :: t => Ok (fold_left Qmaxb t x)
  end.

(** [np.sort]: ascending order (insertion into a sorted list). *)
Fixpoint insert_sorted (x : Q) (l : list Q) : list Q :=
  match l with
  | [] => [x]
  | y :: t => if Qle_bool x y then x :: y :: t else y :: insert_sorted x t
  end.

Fixpoint np_sort (l : list Q) : list Q :=
  match l with
  | [] => []
  | x :: t => insert_sorted x (np_sort t)
  end.

(** [np.arange(k, 0, -1)]: [k, k-1, ..., 1]. *)
Fixpoint arange_down (k : nat) : list nat :=
  match k with
  | O => []
  | S j => S j :: arange_down j
  end.

(** ** The combined script [Ransomeware8.py] *)

(** One line added to the current matplotlib axes by [plt.plot]. *)
Record line : Type := mkLine {
  xdata : list Q;
  ydata : list Q;
  line_label : string;
  line_color : string;
  line_width : Q;
  line_style : string
}.

(** The current axes: the lines plotted so far, oldest first. *)
Definition axes : Type := list line.

Section Ransomeware8.

Variable NUM_SIMULATIONS : nat.
Variable INVESTMENT_COST : Q.
Variable DAILY_LOSS_RANGE : list Q.
Variable RESPONSE_COST_RANGE : list Q.
Variable SECONDARY_LOSS_RANGE : list Q.

(** Body of the [for] loop of [run_fair_simulation]. *)
Definition run_fair_simulation_trial (prob_attack : Q) (days_range : list Q) : M Q :=
  u <- random ;;
  if Qgtb u prob_attack then ret 0
  else
    d0 <- getitem days_range 0 ;;
    d1 <- getitem days_range 1 ;;
    days <- uniform d0 d1 ;;
    c0 <- getitem DAILY_LOSS_RANGE 0 ;;
    c1 <- getitem DAILY_LOSS_RANGE 1 ;;
    daily_cost <- uniform c0 c1 ;;
    let downtime_loss := days * daily_cost in
    r0 <- getitem RESPONSE_COST_RANGE 0 ;;
    r1 <- getitem RESPONSE_COST_RANGE 1 ;;
    response_loss <- uniform r0 r1 ;;
    s0 <- getitem SECONDARY_LOSS_RANGE 0 ;;
    s1 <- getitem SECONDARY_LOSS_RANGE 1 ;;
    secondary_loss <- uniform s0 s1 ;;
    let total_loss := downtime_loss + response_loss + secondary_loss in
    ret total_loss.

(** The [label] argument is accepted and never used. *)
Definition run_fair_simulation (prob_attack : Q) (days_range : list Q)
  (label : string) : M (list Q) :=
  for_append NUM_SIMULATIONS (run_fair_simulation_trial prob_attack days_range).

(** Metrics computed from the two samples. *)
Definition roi_reduction (losses_baseline losses_mitigated : list Q) : npfloat :=
  let ale_baseline := np_mean losses_baseline in
  let ale_mitigated := np_mean losses_mitigated in
  fsub ale_baseline ale_mitigated.

Definition rosi (losses_baseline losses_mitigated : list Q) : npfloat :=
  fmul
    (fdiv (fsub (roi_reduction losses_baseline losses_mitigated) (Fin INVESTMENT_COST))
          (Fin INVESTMENT_COST))
    (Fin 100).

End Ransomeware8.

(** [n_exceeding / len(losses)]: reached only with a non-empty [losses],
    so the quotient is finite. *)
Definition prob_exceed_of (n_exceeding : list nat) (n_losses : nat) : list Q :=
  map (fun k => Qnat k / Qnat n_losses) n_exceeding.

(** [plot_lec]: returns [None]; its effect is on the current axes, the
    state of pyplot.  [plt.plot] appends one line. *)
Definition plot_lec (losses : list Q) (label color linestyle : string)
  (ax : axes) : result unit * axes :=
  let sorted_losses := np_sort losses in
  let sorted_losses_non_zero := filter (fun x => Qgtb x 0) sorted_losses in
  if Nat.eqb (length sorted_losses_non_zero) 0 then (Ok tt, ax)
  else
    let n_exceeding := arange_down (length sorted_losses_non_zero) in
    let prob_exceed := prob_exceed_of n_exceeding (length losses) in
    (Ok tt,
     ax ++ [mkLine sorted_losses_non_zero prob_exceed label color (5 # 2) linestyle]).


(** ** The literal presets of the three scripts *)

Module Baseline.
Definition NUM_SIMULATIONS : nat := 10000.
Definition PROB_ATTACK : Q := 67 # 100.
Definition DAYS_DOWN_BASELINE : list Q := [21; 90].
Definition DAILY_IMPACT_RANGE : list Q := [8; 12].
End Baseline.

Module Mitigation.
Definition NUM_SIMULATIONS : nat := 10000.
Definition PROB_ATTACK : Q := 67 # 100.
Definition DAYS_DOWN_BASELINE : list Q := [21; 90].
Definition DAYS_DOWN_MITIGATED : list Q := [3; 45].
Definition DAILY_IMPACT_RANGE : list Q := [8; 12].
End Mitigation.

Module LongTail.
Definition NUM_SIMULATIONS : nat := 10000.
Definition INVESTMENT_COST : Q := 15.
Definition PROB_ATTACK_BASELINE : Q := 67 # 100.
Definition PROB_ATTACK_MITIGATED : Q := 15 # 100.
Definition DAYS_DOWN_BASELINE : list Q := [15; 120].
Definition DAYS_DOWN_MITIGATED : list Q := [2; 14].
Definition DAILY_LOSS_RANGE : list Q := [30; 95].
Definition RESPONSE_COST_RANGE : list Q := [25; 85].
Definition SECONDARY_LOSS_RANGE : list Q := [50; 650].
End LongTail.

(** ** Auxiliary notions used in the statements *)

(** The spec's validity of a range: non-negative bounds, [min <= max]. *)
Definition valid_range (l : list Q) : Prop :=
  exists lo hi : Q, l = [lo; hi] /\ 0 <= lo /\ lo <= hi.

Definition valid_prob (p : Q) : Prop := 0 <= p /\ p <= 1.


(** A generator that keeps returning the same value, and one that cycles
    through a finite list of values. *)
Definition const_rng (u : Q) : rng := mkRng (fun _ => u) 0.

Definition cycle_rng (us : list Q) : rng :=
  mkRng (fun i => nth (i mod length us) us 0) 0.


(** A computation that consumes draws without changing the sequence the
    generator produces. *)
Definition keeps_draws {A : Type} (m : M A) : Prop :=
  forall g : rng, draws (snd (m g)) = draws g.

(** The generator after [k] further draws. *)
Definition advance (k : nat) (g : rng) : rng := mkRng (draws g) (k + pos g).

(** ** Percentiles and the console reports *)

(** Sequencing of calls that may raise, outside the generator monad. *)
Definition rbind {A B : Type} (r : result A) (k : A -> result B) : result B :=
  match r with
  | Ok a => k a
  | Raise e => Raise e
  end.


(** Linear interpolation between order statistics: the value of the
    sorted array [s] at the fractional index [vi].  An index at or above
    the last position is clipped to the last element. *)
Definition lerp_at (s : list Q) (vi : Q) : Q :=
  let prev := Z.to_nat (Qfloor vi) in
  if (length s - 1 <=? prev)%nat then nth (length s - 1) s 0
  else nth prev s 0 + (nth (S prev) s 0 - nth prev s 0) * (vi - Qnat prev).

Section Percentile.

(** What [np.percentile] does with a zero-size array differs between numpy
    releases (a NaN value or an exception); it is a parameter here. *)
Variable percentile_of_empty : result npfloat.

(** [np.percentile(a, q)], default (linear) method: [q] outside [0, 100]
    raises ValueError; otherwise the sorted array is read at the
    fractional index [(n - 1) * q / 100]. *)
Definition np_percentile (a : list Q) (q : Q) : result npfloat :=
  if Qgtb 0 q || Qgtb q 100 then Raise ValueError
  else
    match a with
    | [] => percentile_of_empty
    | _ :: _ => Ok (Fin (lerp_at (np_sort a) (Qnat (length a - 1) * (q / 100))))
    end.

End Percentile.

Module BaselineReport.

(** The values [print_console_report] computes and then interpolates into
    its printed lines (the text formatting is not modelled). *)
Record metrics : Type := mkMetrics {
  avg_base : npfloat;
  p90_base : npfloat;
  p95_base : npfloat;
  min_base : Q;
  max_base : Q
}.

Section Report.

Variable percentile_of_empty : result npfloat.

Definition print_console_report (impact_base : list Q) : result metrics :=
  let avg_base := np_mean impact_base in
  rbind (np_percentile percentile_of_empty impact_base 90) (fun p90_base =>
  rbind (np_percentile percentile_of_empty impact_base 95) (fun p95_base =>
  rbind (np_min impact_base) (fun min_base =>
  rbind (np_max impact_base) (fun max_base =>
  Ok (mkMetrics avg_base p90_base p95_base min_base max_base))))).


End Report.

End BaselineReport.

Module MitigationReport.

Record metrics : Type := mkMetrics {
  avg_base : npfloat;
  p90_base : npfloat;
  p95_base : npfloat;
  max_base : Q;
  avg_mit : npfloat;
  p90_mit : npfloat;
  p95_mit : npfloat;
  reduct_avg : npfloat;
  reduct_p90 : npfloat
}.

Section Report.

Variable percentile_of_empty : result npfloat.

Definition print_console_report (impact_base impact_mit : list Q) : result metrics :=
  let avg_base := np_mean impact_base in
  rbind (np_percentile percentile_of_empty impact_base 90) (fun p90_base =>
  rbind (np_percentile percentile_of_empty impact_base 95) (fun p95_base =>
  rbind (np_max impact_base) (fun max_base =>
  let avg_mit := np_mean impact_mit in
  rbind (np_percentile percentile_of_empty impact_mit 90) (fun p90_mit =>
  rbind (np_percentile percentile_of_empty impact_mit 95) (fun p95_mit =>
  let reduct_avg := fsub avg_base avg_mit in
  let reduct_p90 := fsub p90_base p90_mit in
  Ok (mkMetrics avg_base p90_base p95_base max_base avg_mit p90_mit p95_mit
        reduct_avg reduct_p90)))))).

End Report.

End MitigationReport.

Module LongTailScript.

(** The values of the "Execution" and "Metrics Calculation" blocks of
    [Ransomeware8.py]: both samples are drawn one after the other from
    the same generator. *)
Record metrics : Type := mkMetrics {
  ale_baseline : npfloat;
  ale_mitigated : npfloat;
  benefit : npfloat;      (* [roi_reduction] *)
  rosi_percent : npfloat  (* [rosi] *)
}.


End LongTailScript.

(** ** Further notions used in the statements *)

(** Order on numpy values that are both finite. *)
Definition fle (a b : npfloat) : Prop :=
  match a, b with
  | Fin x, Fin y => x <= y
  | _, _ => False
  end.

(** * Properties *)

(** ** Two concrete runs *)

Example run_simulation_two_trials :
  fst (run_simulation 2 Baseline.DAILY_IMPACT_RANGE Baseline.PROB_ATTACK
         Baseline.DAYS_DOWN_BASELINE (cycle_rng [9 # 10; 1 # 2; 0; 1 # 2]))
  = Ok [0; (21 + (90 - 21) * 0) * (8 + (12 - 8) * (1 # 2))].
Proof. reflexivity. Qed.

Example plot_lec_four_trials :
  plot_lec [0; 10; 0; 5] "Current State" "firebrick" "-" []
  = (Ok tt, [mkLine [5; 10] [Qnat 2 / Qnat 4; Qnat 1 / Qnat 4]
                "Current State" "firebrick" (5 # 2) "-"]).
Proof. reflexivity. Qed.

(** ** Comparisons and arithmetic of draws *)

Lemma Qgtb_true_iff (x y : Q) : Qgtb x y = true <-> y < x.
Proof.
  unfold Qgtb. rewrite negb_true_iff. split; intro H.
  - apply Qnot_le_lt. intro Hle. apply Qle_bool_iff in Hle. congruence.
  - destruct (Qle_bool x y) eqn:E; [|reflexivity].
    apply Qle_bool_iff in E. exfalso. apply (Qlt_not_le _ _ H E).
Qed.

Lemma Qgtb_false_iff (x y : Q) : Qgtb x y = false <-> x <= y.
Proof.
  unfold Qgtb. rewrite negb_false_iff. apply Qle_bool_iff.
Qed.

Lemma uniform_value_bounds (lo hi u : Q) :
  lo <= hi -> 0 <= u -> u < 1 ->
  lo <= lo + (hi - lo) * u /\ lo + (hi - lo) * u <= hi.
Proof.
  intros Hr Hu0 Hu1. split; nra.
Qed.

(** ** The generator is only ever advanced *)

Lemma keeps_draws_ret {A : Type} (a : A) : keeps_draws (ret a).
Proof. intro g. reflexivity. Qed.

Lemma keeps_draws_raise {A : Type} (e : exn) : keeps_draws (@raise A e).
Proof. intro g. reflexivity. Qed.

Lemma keeps_draws_random : keeps_draws random.
Proof. intro g. reflexivity. Qed.

Lemma keeps_draws_bind {A B : Type} (m : M A) (k : A -> M B) :
  keeps_draws m -> (forall a, keeps_draws (k a)) -> keeps_draws (bind m k).
Proof.
  intros Hm Hk g. unfold bind. specialize (Hm g).
  destruct (m g) as [[a|e] g1]; simpl in *.
  - rewrite Hk. exact Hm.
  - exact Hm.
Qed.

Lemma keeps_draws_getitem (l : list Q) (i : nat) : keeps_draws (getitem l i).
Proof.
  unfold getitem. destruct (nth_error l i).
  - apply keeps_draws_ret.
  - apply keeps_draws_raise.
Qed.

Lemma keeps_draws_uniform (lo hi : Q) : keeps_draws (uniform lo hi).
Proof.
  unfold uniform. apply keeps_draws_bind.
  - apply keeps_draws_random.
  - intro. apply keeps_draws_ret.
Qed.

Create HintDb keeps discriminated.
#[local] Hint Resolve keeps_draws_ret keeps_draws_raise keeps_draws_random
  keeps_draws_getitem keeps_draws_uniform : keeps.

Ltac keeps_step :=
  repeat (first [ apply keeps_draws_bind; [ | intro ]
                | match goal with |- keeps_draws (if ?b then _ else _) => destruct b end
                | solve [ auto with keeps ] ]).

Lemma keeps_draws_for_append (n : nat) (body : M Q) :
  keeps_draws body -> keeps_draws (for_append n body).
Proof.
  intro Hb. induction n as [|k IH]; simpl.
  - apply keeps_draws_ret.
  - keeps_step; assumption.
Qed.

Lemma keeps_draws_run_simulation_trial (dir : list Q) (p : Q) (dr : list Q) :
  keeps_draws (run_simulation_trial dir p dr).
Proof. unfold run_simulation_trial. keeps_step. Qed.

Lemma keeps_draws_run_fair_simulation_trial (dl rc sl : list Q) (p : Q) (dr : list Q) :
  keeps_draws (run_fair_simulation_trial dl rc sl p dr).
Proof. unfold run_fair_simulation_trial. keeps_step. Qed.

Lemma unit_draws_after {A : Type} (m : M A) (g : rng) :
  keeps_draws m -> unit_draws g -> unit_draws (snd (m g)).
Proof.
  intros Hk Hu i. rewrite Hk. apply Hu.
Qed.

(** ** The loop *)

(** When the loop returns, trial [i] was run from the generator state
    reached after [i] trials and appended the [i]-th element. *)
Lemma for_append_nth (body : M Q) :
  forall (n i : nat) (g g' : rng) (xs : list Q),
    for_append n body g = (Ok xs, g') -> (i < n)%nat ->
    fst (body (snd (for_append i body g))) = Ok (nth i xs 0).
Proof.
  induction n as [|k IH]; intros i g g' xs Hrun Hi; [lia|].
  simpl in Hrun. unfold bind in Hrun.
  destruct (body g) as [[x|e] g1] eqn:Hb; [|discriminate].
  destruct (for_append k body g1) as [[xs'|e] g2] eqn:Hk; [|discriminate].
  unfold ret in Hrun. injection Hrun as <- <-.
  destruct i as [|j].
  - simpl. rewrite Hb. reflexivity.
  - assert (Hs : snd (for_append (S j) body g) = snd (for_append j body g1)).
    { simpl. unfold bind. rewrite Hb.
      destruct (for_append j body g1) as [[ys|e] g3]; reflexivity. }
    rewrite Hs. simpl. apply (IH j g1 g2 xs' Hk). lia.
Qed.

(** A body that always returns a value satisfying [P] (under an invariant
    [I] of the generator that it preserves) makes the loop return [n]
    values satisfying [P]. *)
Lemma for_append_total (body : M Q) (I : rng -> Prop) (P : Q -> Prop) :
  (forall g, I g -> exists x g', body g = (Ok x, g') /\ P x /\ I g') ->
  forall (n : nat) (g : rng), I g ->
    exists xs g', for_append n body g = (Ok xs, g')
                  /\ length xs = n /\ Forall P xs /\ I g'.
Proof.
  intros Hbody. induction n as [|k IH]; intros g Hg.
  - exists [], g. repeat split; auto.
  - destruct (Hbody g Hg) as (x & g1 & Hb & Hx & Hg1).
    destruct (IH g1 Hg1) as (xs & g2 & Hk & Hlen & Hall & Hg2).
    exists (x :: xs), g2. simpl. unfold bind. rewrite Hb, Hk.
    repeat split; simpl; auto.
Qed.

(** ** One trial, case by case *)

Lemma run_simulation_trial_skip (dir : list Q) (p : Q) (dr : list Q) (g : rng) :
  p < draws g (pos g) ->
  run_simulation_trial dir p dr g = (Ok 0, advance 1 g).
Proof.
  intro Hu. apply Qgtb_true_iff in Hu.
  unfold run_simulation_trial, bind, random. rewrite Hu. reflexivity.
Qed.

Lemma run_simulation_trial_hit (clo chi p dlo dhi : Q) (g : rng) :
  draws g (pos g) <= p ->
  run_simulation_trial [clo; chi] p [dlo; dhi] g
  = (Ok ((dlo + (dhi - dlo) * draws g (S (pos g)))
         * (clo + (chi - clo) * draws g (S (S (pos g))))),
     advance 3 g).
Proof.
  intro Hu. apply Qgtb_false_iff in Hu.
  unfold run_simulation_trial, bind, random. rewrite Hu. reflexivity.
Qed.

Lemma run_fair_simulation_trial_skip (dl rc sl : list Q) (p : Q) (dr : list Q) (g : rng) :
  p < draws g (pos g) ->
  run_fair_simulation_trial dl rc sl p dr g = (Ok 0, advance 1 g).
Proof.
  intro Hu. apply Qgtb_true_iff in Hu.
  unfold run_fair_simulation_trial, bind, random. rewrite Hu. reflexivity.
Qed.

Lemma run_fair_simulation_trial_hit (clo chi rlo rhi slo shi p dlo dhi : Q) (g : rng) :
  draws g (pos g) <= p ->
  run_fair_simulation_trial [clo; chi] [rlo; rhi] [slo; shi] p [dlo; dhi] g
  = (Ok ((dlo + (dhi - dlo) * draws g (S (pos g)))
         * (clo + (chi - clo) * draws g (S (S (pos g))))
         + (rlo + (rhi - rlo) * draws g (S (S (S (pos g)))))
         + (slo + (shi - slo) * draws g (S (S (S (S (pos g))))))),
     advance 5 g).
Proof.
  intro Hu. apply Qgtb_false_iff in Hu.
  unfold run_fair_simulation_trial, bind, random. rewrite Hu. reflexivity.
Qed.

Lemma unit_draws_advance (k : nat) (g : rng) : unit_draws g -> unit_draws (advance k g).
Proof. intros H i. apply H. Qed.

Lemma unit_draws_const (u : Q) : 0 <= u -> u < 1 -> unit_draws (const_rng u).
Proof. intros H0 H1 i. simpl. split; assumption. Qed.

Lemma valid_range_intro (lo hi : Q) : 0 <= lo -> lo <= hi -> valid_range [lo; hi].
Proof. intros H0 H1. exists lo, hi. repeat split; assumption. Qed.

(** Loss of a trial of [run_simulation] in which the attack occurs. *)
Lemma downtime_loss_bounds (dlo dhi clo chi u1 u2 : Q) :
  0 <= dlo -> dlo <= dhi -> 0 <= clo -> clo <= chi ->
  0 <= u1 -> u1 < 1 -> 0 <= u2 -> u2 < 1 ->
  dlo * clo <= (dlo + (dhi - dlo) * u1) * (clo + (chi - clo) * u2)
  /\ (dlo + (dhi - dlo) * u1) * (clo + (chi - clo) * u2) <= dhi * chi.
Proof.
  intros Hd0 Hd Hc0 Hc Hu10 Hu11 Hu20 Hu21.
  destruct (uniform_value_bounds dlo dhi u1 Hd Hu10 Hu11) as [Ha Hb].
  destruct (uniform_value_bounds clo chi u2 Hc Hu20 Hu21) as [Ha' Hb'].
  set (x := dlo + (dhi - dlo) * u1) in *.
  set (y := clo + (chi - clo) * u2) in *.
  split; nra.
Qed.

Lemma run_simulation_trial_nonneg (clo chi p dlo dhi : Q) (g : rng) :
  0 <= dlo -> dlo <= dhi -> 0 <= clo -> clo <= chi -> unit_draws g ->
  exists x g', run_simulation_trial [clo; chi] p [dlo; dhi] g = (Ok x, g')
               /\ 0 <= x /\ unit_draws g'.
Proof.
  intros Hd0 Hd Hc0 Hc Hg.
  destruct (Qlt_le_dec p (draws g (pos g))) as [Hu|Hu].
  - exists 0, (advance 1 g). split; [apply run_simulation_trial_skip; exact Hu|].
    split; [lra | apply unit_draws_advance; exact Hg].
  - eexists _, (advance 3 g). split; [apply run_simulation_trial_hit; exact Hu|].
    split; [| apply unit_draws_advance; exact Hg].
    destruct (Hg (S (pos g))) as [H10 H11].
    destruct (Hg (S (S (pos g)))) as [H20 H21].
    pose proof (downtime_loss_bounds dlo dhi clo chi _ _ Hd0 Hd Hc0 Hc H10 H11 H20 H21) as [Hlow _].
    assert (0 <= dlo * clo) by nra. lra.
Qed.

Lemma run_fair_simulation_trial_nonneg (clo chi rlo rhi slo shi p dlo dhi : Q) (g : rng) :
  0 <= dlo -> dlo <= dhi -> 0 <= clo -> clo <= chi ->
  0 <= rlo -> rlo <= rhi -> 0 <= slo -> slo <= shi -> unit_draws g ->
  exists x g',
    run_fair_simulation_trial [clo; chi] [rlo; rhi] [slo; shi] p [dlo; dhi] g = (Ok x, g')
    /\ 0 <= x /\ unit_draws g'.
Proof.
  intros Hd0 Hd Hc0 Hc Hr0 Hr Hs0 Hs Hg.
  destruct (Qlt_le_dec p (draws g (pos g))) as [Hu|Hu].
  - exists 0, (advance 1 g). split; [apply run_fair_simulation_trial_skip; exact Hu|].
    split; [lra | apply unit_draws_advance; exact Hg].
  - eexists _, (advance 5 g). split; [apply run_fair_simulation_trial_hit; exact Hu|].
    split; [| apply unit_draws_advance; exact Hg].
    destruct (Hg (S (pos g))) as [H10 H11].
    destruct (Hg (S (S (pos g)))) as [H20 H21].
    destruct (Hg (S (S (S (pos g))))) as [H30 H31].
    destruct (Hg (S (S (S (S (pos g)))))) as [H40 H41].
    pose proof (downtime_loss_bounds dlo dhi clo chi _ _ Hd0 Hd Hc0 Hc H10 H11 H20 H21) as [Hlow _].
    destruct (uniform_value_bounds rlo rhi _ Hr H30 H31) as [Hra _].
    destruct (uniform_value_bounds slo shi _ Hs H40 H41) as [Hsa _].
    assert (0 <= dlo * clo) by nra. lra.
Qed.

(** ** C1 *)

(** C1. For every valid scenario configuration (probability in [0,1],
    every range with non-negative bounds and min <= max), every trial
    count N > 0 and every sequence of unit-interval draws, both
    [run_simulation] and [run_fair_simulation] return a sample of exactly
    N losses, each of them >= 0. *)
Theorem simulators_return_n_nonnegative_losses :
  forall (N : nat) (p : Q) (days daily response secondary : list Q)
         (label : string) (g : rng),
    (0 < N)%nat -> valid_prob p ->
    valid_range days -> valid_range daily ->
    valid_range response -> valid_range secondary ->
    unit_draws g ->
    (exists sample g',
        run_simulation N daily p days g = (Ok sample, g')
        /\ length sample = N /\ Forall (fun x => 0 <= x) sample)
    /\
    (exists sample g',
        run_fair_simulation N daily response secondary p days label g = (Ok sample, g')
        /\ length sample = N /\ Forall (fun x => 0 <= x) sample).
Proof.
  intros N p days daily response secondary label g _ _
         (dlo & dhi & -> & Hd0 & Hd) (clo & chi & -> & Hc0 & Hc)
         (rlo & rhi & -> & Hr0 & Hr) (slo & shi & -> & Hs0 & Hs) Hg.
  split.
  - destruct (for_append_total (run_simulation_trial [clo; chi] p [dlo; dhi])
                unit_draws (fun x => 0 <= x)) with (n := N) (g := g)
      as (xs & g' & Hrun & Hlen & Hall & _); [|exact Hg|].
    + intros g0 Hg0. apply run_simulation_trial_nonneg; assumption.
    + exists xs, g'. auto.
  - destruct (for_append_total
                (run_fair_simulation_trial [clo; chi] [rlo; rhi] [slo; shi] p [dlo; dhi])
                unit_draws (fun x => 0 <= x)) with (n := N) (g := g)
      as (xs & g' & Hrun & Hlen & Hall & _); [|exact Hg|].
    + intros g0 Hg0. apply run_fair_simulation_trial_nonneg; assumption.
    + exists xs, g'. auto.
Qed.

Lemma simulators_return_n_nonnegative_losses_witness :
  (exists sample g',
      run_simulation 3 LongTail.DAILY_LOSS_RANGE LongTail.PROB_ATTACK_BASELINE
        LongTail.DAYS_DOWN_BASELINE (const_rng (1 # 2)) = (Ok sample, g')
      /\ length sample = 3%nat /\ Forall (fun x => 0 <= x) sample)
  /\
  (exists sample g',
      run_fair_simulation 3 LongTail.DAILY_LOSS_RANGE LongTail.RESPONSE_COST_RANGE
        LongTail.SECONDARY_LOSS_RANGE LongTail.PROB_ATTACK_BASELINE
        LongTail.DAYS_DOWN_BASELINE "Baseline" (const_rng (1 # 2)) = (Ok sample, g')
      /\ length sample = 3%nat /\ Forall (fun x => 0 <= x) sample).
Proof.
  apply (simulators_return_n_nonnegative_losses 3 LongTail.PROB_ATTACK_BASELINE
           LongTail.DAYS_DOWN_BASELINE LongTail.DAILY_LOSS_RANGE
           LongTail.RESPONSE_COST_RANGE LongTail.SECONDARY_LOSS_RANGE
           "Baseline" (const_rng (1 # 2))).
  - lia.
  - unfold valid_prob, LongTail.PROB_ATTACK_BASELINE. split; lra.
  - apply valid_range_intro; lra.
  - apply valid_range_intro; lra.
  - apply valid_range_intro; lra.
  - apply valid_range_intro; lra.
  - apply unit_draws_const; lra.
Defined.

(** ** One trial: value against the frequency draw *)

Lemma run_simulation_trial_value (clo chi p dlo dhi : Q) (g : rng) (x : Q) :
  0 <= dlo -> dlo <= dhi -> 0 <= clo -> clo <= chi -> unit_draws g ->
  fst (run_simulation_trial [clo; chi] p [dlo; dhi] g) = Ok x ->
  (p < draws g (pos g) -> x = 0)
  /\ (draws g (pos g) <= p -> dlo * clo <= x /\ x <= dhi * chi).
Proof.
  intros Hd0 Hd Hc0 Hc Hg Hx. split; intro Hu.
  - rewrite (run_simulation_trial_skip _ _ _ _ Hu) in Hx. simpl in Hx. congruence.
  - rewrite (run_simulation_trial_hit _ _ _ _ _ _ Hu) in Hx. cbn [fst] in Hx.
    injection Hx as <-.
    destruct (Hg (S (pos g))) as [H10 H11].
    destruct (Hg (S (S (pos g)))) as [H20 H21].
    apply downtime_loss_bounds; assumption.
Qed.

Lemma run_fair_simulation_trial_value
  (clo chi rlo rhi slo shi p dlo dhi : Q) (g : rng) (x : Q) :
  0 <= dlo -> dlo <= dhi -> 0 <= clo -> clo <= chi ->
  0 <= rlo -> rlo <= rhi -> 0 <= slo -> slo <= shi -> unit_draws g ->
  fst (run_fair_simulation_trial [clo; chi] [rlo; rhi] [slo; shi] p [dlo; dhi] g) = Ok x ->
  (p < draws g (pos g) -> x = 0)
  /\ (draws g (pos g) <= p ->
      dlo * clo + rlo + slo <= x /\ x <= dhi * chi + rhi + shi).
Proof.
  intros Hd0 Hd Hc0 Hc Hr0 Hr Hs0 Hs Hg Hx. split; intro Hu.
  - rewrite (run_fair_simulation_trial_skip _ _ _ _ _ _ Hu) in Hx. simpl in Hx. congruence.
  - rewrite (run_fair_simulation_trial_hit _ _ _ _ _ _ _ _ _ _ Hu) in Hx. cbn [fst] in Hx.
    injection Hx as <-.
    destruct (Hg (S (pos g))) as [H10 H11].
    destruct (Hg (S (S (pos g)))) as [H20 H21].
    destruct (Hg (S (S (S (pos g))))) as [H30 H31].
    destruct (Hg (S (S (S (S (pos g)))))) as [H40 H41].
    pose proof (downtime_loss_bounds dlo dhi clo chi _ _ Hd0 Hd Hc0 Hc H10 H11 H20 H21)
      as [Hlow Hup].
    destruct (uniform_value_bounds rlo rhi _ Hr H30 H31) as [Hra Hrb].
    destruct (uniform_value_bounds slo shi _ Hs H40 H41) as [Hsa Hsb].
    set (dt := (dlo + (dhi - dlo) * draws g (S (pos g)))
               * (clo + (chi - clo) * draws g (S (S (pos g))))) in *.
    set (rs := rlo + (rhi - rlo) * draws g (S (S (S (pos g))))) in *.
    set (sc := slo + (shi - slo) * draws g (S (S (S (S (pos g)))))) in *.
    split; lra.
Qed.

(** The generator state in which trial [i] of a loop starts. *)
Lemma unit_draws_before_trial (body : M Q) (i : nat) (g : rng) :
  keeps_draws body -> unit_draws g -> unit_draws (snd (for_append i body g)).
Proof.
  intros Hb Hg. apply unit_draws_after; [apply keeps_draws_for_append|]; assumption.
Qed.

(** ** C2 *)




(** ** C7 *)

(** C7. For every trial whose recorded loss is strictly positive, the
    loss is at least dMin * cMin and at most the sum of the maxima:
    dMax * cMax for [run_simulation], and dMax * cMax plus the response and
    secondary maxima for [run_fair_simulation]. *)
Theorem positive_loss_within_range_bounds :
  forall (N : nat) (p dlo dhi clo chi rlo rhi slo shi : Q) (label : string) (g : rng),
    valid_prob p ->
    0 <= dlo -> dlo <= dhi -> 0 <= clo -> clo <= chi ->
    0 <= rlo -> rlo <= rhi -> 0 <= slo -> slo <= shi ->
    unit_draws g ->
    (exists sample g',
        run_fair_simulation N [clo; chi] [rlo; rhi] [slo; shi] p [dlo; dhi] label g
        = (Ok sample, g')
        /\ forall i, (i < N)%nat -> 0 < nth i sample 0 ->
             dlo * clo <= nth i sample 0
             /\ nth i sample 0 <= dhi * chi + rhi + shi)
    /\
    (exists sample g',
        run_simulation N [clo; chi] p [dlo; dhi] g = (Ok sample, g')
        /\ forall i, (i < N)%nat -> 0 < nth i sample 0 ->
             dlo * clo <= nth i sample 0 /\ nth i sample 0 <= dhi * chi).
Proof.
  intros N p dlo dhi clo chi rlo rhi slo shi label g _
         Hd0 Hd Hc0 Hc Hr0 Hr Hs0 Hs Hg.
  split.
  - destruct (for_append_total
                (run_fair_simulation_trial [clo; chi] [rlo; rhi] [slo; shi] p [dlo; dhi])
                unit_draws (fun _ => True)) with (n := N) (g := g)
      as (xs & g' & Hrun & _); [|exact Hg|].
    { intros g0 Hg0.
      destruct (run_fair_simulation_trial_nonneg clo chi rlo rhi slo shi p dlo dhi g0)
        as (x & g1 & H1 & _ & H2); try assumption.
      exists x, g1. auto. }
    exists xs, g'. split; [exact Hrun|]. intros i Hi Hpos.
    pose proof (for_append_nth _ _ _ _ _ _ Hrun Hi) as Hnth.
    set (gi := snd (for_append i
                      (run_fair_simulation_trial [clo; chi] [rlo; rhi] [slo; shi] p [dlo; dhi])
                      g)) in *.
    assert (Hgi : unit_draws gi).
    { apply unit_draws_before_trial; [apply keeps_draws_run_fair_simulation_trial | exact Hg]. }
    destruct (run_fair_simulation_trial_value clo chi rlo rhi slo shi p dlo dhi gi
                (nth i xs 0)) as [Hskip Hhit]; try assumption.
    destruct (Qlt_le_dec p (draws gi (pos gi))) as [Hlt|Hle].
    + rewrite (Hskip Hlt) in Hpos. lra.
    + destruct (Hhit Hle). split; lra.
  - destruct (for_append_total (run_simulation_trial [clo; chi] p [dlo; dhi])
                unit_draws (fun _ => True)) with (n := N) (g := g)
      as (xs & g' & Hrun & _); [|exact Hg|].
    { intros g0 Hg0.
      destruct (run_simulation_trial_nonneg clo chi p dlo dhi g0) as (x & g1 & H1 & _ & H2);
        try assumption.
      exists x, g1. auto. }
    exists xs, g'. split; [exact Hrun|]. intros i Hi Hpos.
    pose proof (for_append_nth _ _ _ _ _ _ Hrun Hi) as Hnth.
    set (gi := snd (for_append i (run_simulation_trial [clo; chi] p [dlo; dhi]) g)) in *.
    assert (Hgi : unit_draws gi).
    { apply unit_draws_before_trial; [apply keeps_draws_run_simulation_trial | exact Hg]. }
    destruct (run_simulation_trial_value clo chi p dlo dhi gi (nth i xs 0))
      as [Hskip Hhit]; try assumption.
    destruct (Qlt_le_dec p (draws gi (pos gi))) as [Hlt|Hle].
    + rewrite (Hskip Hlt) in Hpos. lra.
    + destruct (Hhit Hle). split; lra.
Qed.

Lemma positive_loss_within_range_bounds_witness :
  exists sample g',
    run_fair_simulation 2 LongTail.DAILY_LOSS_RANGE LongTail.RESPONSE_COST_RANGE
      LongTail.SECONDARY_LOSS_RANGE LongTail.PROB_ATTACK_BASELINE
      LongTail.DAYS_DOWN_BASELINE "Baseline" (const_rng (1 # 4)) = (Ok sample, g')
    /\ forall i, (i < 2)%nat -> 0 < nth i sample 0 ->
         15 * 30 <= nth i sample 0 /\ nth i sample 0 <= 120 * 95 + 85 + 650.
Proof.
  refine (proj1 (positive_loss_within_range_bounds 2 LongTail.PROB_ATTACK_BASELINE
                   15 120 30 95 25 85 50 650 "Baseline" (const_rng (1 # 4))
                   _ _ _ _ _ _ _ _ _ _)).
  - unfold valid_prob, LongTail.PROB_ATTACK_BASELINE. split; lra.
  - lra.
  - lra.
  - lra.
  - lra.
  - lra.
  - lra.
  - lra.
  - lra.
  - apply unit_draws_const; lra.
Defined.

(** ** C3 *)






(** ** C4 *)

(** C4, as stated, fails: a run in which no attack occurs has an empty
    impact-only subsequence, and its mean is NaN, returned as an ordinary
    value. *)
Lemma mean_of_empty_impact_is_nan :
  exists g',
    run_simulation 2 Baseline.DAILY_IMPACT_RANGE Baseline.PROB_ATTACK
      Baseline.DAYS_DOWN_BASELINE (const_rng (9 # 10)) = (Ok [0; 0], g')
    /\ impact [0; 0] = []
    /\ np_mean (impact [0; 0]) = NaN.
Proof.
  eexists. split; [reflexivity|]. split; reflexivity.
Qed.

(** C4 (amended). For every sample whose impact-only subsequence is
    empty, the mean over that subsequence is NaN, returned without any
    error, and min and max raise numpy's ValueError. *)
Theorem statistics_of_empty_impact :
  forall losses : list Q,
    impact losses = [] ->
    np_mean (impact losses) = NaN
    /\ np_min (impact losses) = Raise ValueError
    /\ np_max (impact losses) = Raise ValueError.
Proof.
  intros losses ->. repeat split.
Qed.

Lemma statistics_of_empty_impact_witness :
  np_mean (impact [0; 0; 0]) = NaN
  /\ np_min (impact [0; 0; 0]) = Raise ValueError
  /\ np_max (impact [0; 0; 0]) = Raise ValueError.
Proof.
  apply (statistics_of_empty_impact [0; 0; 0]). reflexivity.
Defined.

(** ** C5 *)

Lemma impact_repeat_zero (n : nat) : impact (repeat 0 n) = [].
Proof.
  induction n as [|k IH]; [reflexivity|]. simpl. exact IH.
Qed.

(** C5, as stated, fails on both counts.  With p = 0 and draws 1/2 the
    sample is all zeros, but the mean over its empty impact-only
    subsequence is NaN, returned as a value: nothing is raised.  And
    [np.random.random] may return exactly 0: then the test [0 > 0] is
    false, the attack occurs and a strictly positive loss is recorded. *)
Lemma zero_probability_counterexample :
  (exists g',
      run_simulation 2 Baseline.DAILY_IMPACT_RANGE 0 Baseline.DAYS_DOWN_BASELINE
        (const_rng (1 # 2)) = (Ok [0; 0], g')
      /\ np_mean (impact [0; 0]) = NaN)
  /\ unit_draws (const_rng 0)
  /\ exists x g',
       run_simulation 1 Baseline.DAILY_IMPACT_RANGE 0 Baseline.DAYS_DOWN_BASELINE
         (const_rng 0) = (Ok [x], g')
       /\ x == 168 /\ ~ x == 0.
Proof.
  split; [eexists; split; reflexivity|].
  split; [apply unit_draws_const; lra|].
  eexists _, _. split; [reflexivity|]. split; [reflexivity|].
  intro H. vm_compute in H. discriminate.
Qed.

(** C5 (amended). For p = 0 and any ranges, whenever every random draw is
    strictly positive the sample consists of N zeros; its impact-only
    subsequence is then empty, whose mean is NaN (no error) and whose min
    and max raise ValueError. *)
Theorem zero_probability_gives_all_zero_sample :
  forall (N : nat) (p : Q) (days daily response secondary : list Q)
         (label : string) (g : rng),
    p == 0 ->
    (forall i, 0 < draws g i) ->
    (exists g', run_simulation N daily p days g = (Ok (repeat 0 N), g'))
    /\ (exists g', run_fair_simulation N daily response secondary p days label g
                   = (Ok (repeat 0 N), g'))
    /\ impact (repeat 0 N) = []
    /\ np_mean (impact (repeat 0 N)) = NaN
    /\ np_min (impact (repeat 0 N)) = Raise ValueError
    /\ np_max (impact (repeat 0 N)) = Raise ValueError.
Proof.
  intros N p days daily response secondary label g Hp Hg.
  split; [|split].
  - destruct (for_append_total (run_simulation_trial daily p days)
                (fun g0 => forall i, 0 < draws g0 i) (eq 0)) with (n := N) (g := g)
      as (xs & g' & Hrun & Hlen & Hall & _); [|exact Hg|].
    + intros g0 Hg0. exists 0, (advance 1 g0).
      split; [apply run_simulation_trial_skip; rewrite Hp; apply Hg0|].
      split; [reflexivity | exact Hg0].
    + exists g'. apply Forall_eq_repeat in Hall. rewrite Hlen in Hall.
      rewrite <- Hall. exact Hrun.
  - destruct (for_append_total (run_fair_simulation_trial daily response secondary p days)
                (fun g0 => forall i, 0 < draws g0 i) (eq 0)) with (n := N) (g := g)
      as (xs & g' & Hrun & Hlen & Hall & _); [|exact Hg|].
    + intros g0 Hg0. exists 0, (advance 1 g0).
      split; [apply run_fair_simulation_trial_skip; rewrite Hp; apply Hg0|].
      split; [reflexivity | exact Hg0].
    + exists g'. apply Forall_eq_repeat in Hall. rewrite Hlen in Hall.
      rewrite <- Hall. exact Hrun.
  - rewrite impact_repeat_zero. repeat split.
Qed.

Lemma zero_probability_gives_all_zero_sample_witness :
  (exists g', run_simulation 3 Baseline.DAILY_IMPACT_RANGE 0 Baseline.DAYS_DOWN_BASELINE
                (const_rng (1 # 2)) = (Ok (repeat 0 3), g'))
  /\ (exists g', run_fair_simulation 3 Baseline.DAILY_IMPACT_RANGE
                   LongTail.RESPONSE_COST_RANGE LongTail.SECONDARY_LOSS_RANGE 0
                   Baseline.DAYS_DOWN_BASELINE "Baseline" (const_rng (1 # 2))
                 = (Ok (repeat 0 3), g'))
  /\ impact (repeat 0 3) = []
  /\ np_mean (impact (repeat 0 3)) = NaN
  /\ np_min (impact (repeat 0 3)) = Raise ValueError
  /\ np_max (impact (repeat 0 3)) = Raise ValueError.
Proof.
  apply (zero_probability_gives_all_zero_sample 3 0 Baseline.DAYS_DOWN_BASELINE
           Baseline.DAILY_IMPACT_RANGE LongTail.RESPONSE_COST_RANGE
           LongTail.SECONDARY_LOSS_RANGE "Baseline" (const_rng (1 # 2))).
  - reflexivity.
  - intro i. simpl. lra.
Defined.

(** ** C8 *)

Lemma Qeq_bool_false (x y : Q) : ~ x == y -> Qeq_bool x y = false.
Proof.
  intro H. destruct (Qeq_bool x y) eqn:E; [|reflexivity].
  apply Qeq_bool_iff in E. contradiction.
Qed.

(** C8. With finite sample means mb and mm and a non-zero investment
    cost, the benefit is mb - mm and ROSI is ((benefit - cost) / cost) * 100;
    for means 400 and 100 and cost 15 these are 300 and 1900. *)
Theorem rosi_formula :
  forall (losses_baseline losses_mitigated : list Q) (cost mb mm : Q),
    np_mean losses_baseline = Fin mb ->
    np_mean losses_mitigated = Fin mm ->
    ~ cost == 0 ->
    roi_reduction losses_baseline losses_mitigated = Fin (mb - mm)
    /\ rosi cost losses_baseline losses_mitigated
       = Fin (((mb - mm) - cost) / cost * 100)
    /\ (mb == 400 -> mm == 100 -> cost == 15 ->
        mb - mm == 300 /\ ((mb - mm) - cost) / cost * 100 == 1900).
Proof.
  intros lb lm cost mb mm Hb Hm Hc.
  assert (Hroi : roi_reduction lb lm = Fin (mb - mm)).
  { unfold roi_reduction. rewrite Hb, Hm. reflexivity. }
  split; [exact Hroi|]. split.
  - unfold rosi. rewrite Hroi. simpl. rewrite (Qeq_bool_false _ _ Hc). reflexivity.
  - intros H1 H2 H3. rewrite H1, H2, H3. split; reflexivity.
Qed.

Lemma rosi_formula_witness :
  roi_reduction [800; 0] [200; 0; 100; 100] = Fin (800 / 2 - 400 / 4)
  /\ rosi LongTail.INVESTMENT_COST [800; 0] [200; 0; 100; 100]
     = Fin (((800 / 2 - 400 / 4) - 15) / 15 * 100)
  /\ (800 / 2 == 400 -> 400 / 4 == 100 -> 15 == 15 ->
      800 / 2 - 400 / 4 == 300 /\ ((800 / 2 - 400 / 4) - 15) / 15 * 100 == 1900).
Proof.
  apply (rosi_formula [800; 0] [200; 0; 100; 100] LongTail.INVESTMENT_COST
           (800 / 2) (400 / 4)).
  - vm_compute. reflexivity.
  - vm_compute. reflexivity.
  - intro H. vm_compute in H. discriminate.
Defined.

(** ** C9 *)

Lemma Qnat_pos (n : nat) : (0 < n)%nat -> 0 < Qnat n.
Proof.
  intro H. unfold Qnat. change 0 with (inject_Z 0). rewrite <- Zlt_Qlt. lia.
Qed.

Lemma Qnat_le (m n : nat) : (m <= n)%nat -> Qnat m <= Qnat n.
Proof.
  intro H. unfold Qnat. rewrite <- Zle_Qle. lia.
Qed.

Lemma Qnat_lt (m n : nat) : (m < n)%nat -> Qnat m < Qnat n.
Proof.
  intro H. unfold Qnat. rewrite <- Zlt_Qlt. lia.
Qed.

Lemma np_mean_nonempty (a : list Q) :
  a <> [] -> np_mean a = Fin (Qsum a / Qnat (length a)).
Proof.
  intro Ha. unfold np_mean, fdiv.
  rewrite Qeq_bool_false; [reflexivity|].
  assert (0 < Qnat (length a)).
  { apply Qnat_pos. destruct a; [congruence | simpl; lia]. }
  lra.
Qed.










(** ** Sorting *)

Lemma Qle_bool_false (x y : Q) : Qle_bool x y = false -> y < x.
Proof.
  intro H. apply Qnot_le_lt. intro Hle. apply Qle_bool_iff in Hle. congruence.
Qed.

Lemma insert_sorted_perm (x : Q) (l : list Q) : Permutation (insert_sorted x l) (x :: l).
Proof.
  induction l as [|y t IH]; simpl; [apply Permutation_refl|].
  destruct (Qle_bool x y); [apply Permutation_refl|].
  apply Permutation_trans with (y :: x :: t); [|apply perm_swap].
  apply perm_skip. exact IH.
Qed.

Lemma np_sort_perm (l : list Q) : Permutation (np_sort l) l.
Proof.
  induction l as [|x t IH]; simpl; [apply perm_nil|].
  apply Permutation_trans with (x :: np_sort t);
    [apply insert_sorted_perm | apply perm_skip; exact IH].
Qed.

Lemma insert_sorted_sorted (x : Q) (l : list Q) :
  StronglySorted Qle l -> StronglySorted Qle (insert_sorted x l).
Proof.
  induction 1 as [|y t Ht IH Hy]; simpl.
  - constructor; constructor.
  - destruct (Qle_bool x y) eqn:E.
    + apply Qle_bool_iff in E. constructor.
      * constructor; assumption.
      * constructor; [exact E|].
        apply Forall_impl with (P := Qle y); [|exact Hy].
        intros z Hz. apply Qle_trans with y; assumption.
    + apply Qle_bool_false in E. constructor; [exact IH|].
      apply Permutation_Forall with (x :: t);
        [apply Permutation_sym, insert_sorted_perm|].
      constructor; [apply Qlt_le_weak; exact E | exact Hy].
Qed.

Lemma np_sort_sorted (l : list Q) : StronglySorted Qle (np_sort l).
Proof.
  induction l as [|x t IH]; simpl; [constructor|].
  apply insert_sorted_sorted. exact IH.
Qed.


(** ** Counting the trials at or above a threshold *)






(** ** The exceedance curve *)





Lemma plot_lec_plots (losses : list Q) (label color linestyle : string) (ax : axes) :
  filter (fun x => Qgtb x 0) (np_sort losses) <> [] ->
  plot_lec losses label color linestyle ax
  = (Ok tt,
     ax ++ [mkLine (filter (fun x => Qgtb x 0) (np_sort losses))
              (prob_exceed_of
                 (arange_down (length (filter (fun x => Qgtb x 0) (np_sort losses))))
                 (length losses))
              label color (5 # 2) linestyle]).
Proof.
  intro Hne. unfold plot_lec.
  destruct (filter (fun x => Qgtb x 0) (np_sort losses)); [congruence | reflexivity].
Qed.

Lemma sorted_positive_In (losses : list Q) (x : Q) :
  In x (filter (fun x => Qgtb x 0) (np_sort losses)) <-> In x losses /\ 0 < x.
Proof.
  rewrite filter_In, Qgtb_true_iff. split; intros [H1 H2]; split; try assumption.
  - apply Permutation_in with (np_sort losses); [apply np_sort_perm | exact H1].
  - apply Permutation_in with losses; [apply Permutation_sym, np_sort_perm | exact H1].
Qed.

(** ** C6 *)



(** ** C10 *)

(** C10. For every sample without a strictly positive value, [plot_lec]
    returns normally and leaves the axes as they were: no line, hence no
    curve point, is added. *)
Theorem plot_lec_without_positive_loss :
  forall (losses : list Q) (label color linestyle : string) (ax : axes),
    (forall x, In x losses -> ~ 0 < x) ->
    plot_lec losses label color linestyle ax = (Ok tt, ax).
Proof.
  intros losses label color linestyle ax Hnone.
  assert (E : filter (fun x => Qgtb x 0) (np_sort losses) = []).
  { destruct (filter (fun x => Qgtb x 0) (np_sort losses)) as [|y t] eqn:F;
      [reflexivity|].
    assert (Hy : In y (filter (fun x => Qgtb x 0) (np_sort losses)))
      by (rewrite F; left; reflexivity).
    apply sorted_positive_In in Hy. destruct Hy as [Hy1 Hy2].
    exfalso. exact (Hnone y Hy1 Hy2). }
  unfold plot_lec. rewrite E. reflexivity.
Qed.

Lemma plot_lec_without_positive_loss_witness :
  plot_lec [0; 0; 0] "With Strategy" "seagreen" "-" [] = (Ok tt, []).
Proof.
  apply (plot_lec_without_positive_loss [0; 0; 0] "With Strategy" "seagreen" "-" []).
  intros x Hx. simpl in Hx. intro Hpos.
  destruct Hx as [<-|[<-|[<-|[]]]]; vm_compute in Hpos; discriminate.
Defined.

(** * Further properties of the simulators *)

(** ** Draws consumed *)







(** ** Probabilities at and beyond the ends of [0, 1] *)




Lemma advance_advance (j k : nat) (g : rng) :
  advance j (advance k g) = advance (j + k) g.
Proof.
  unfold advance. simpl. f_equal. lia.
Qed.

(** A loop all of whose trials take the no-attack branch. *)
Lemma for_append_all_skip (body : M Q) (I : rng -> Prop) :
  (forall g, I g -> body g = (Ok 0, advance 1 g)) ->
  (forall g, I g -> I (advance 1 g)) ->
  forall (n : nat) (g : rng), I g ->
    for_append n body g = (Ok (repeat 0 n), advance n g).
Proof.
  intros Hbody Hstep. induction n as [|k IH]; intros g Hg.
  - destruct g. reflexivity.
  - simpl. unfold bind. rewrite (Hbody g Hg), (IH _ (Hstep g Hg)).
    unfold ret. rewrite advance_advance. do 2 f_equal. lia.
Qed.

(** X3. With a negative probability no attack ever occurs: for every
    sequence of unit-interval draws and whatever the range arguments are,
    the sample is N zeros and exactly N draws are consumed. *)
Theorem negative_probability_gives_zeros :
  forall (N : nat) (p : Q) (days daily response secondary : list Q)
         (label : string) (g : rng),
    p < 0 ->
    unit_draws g ->
    run_simulation N daily p days g = (Ok (repeat 0 N), advance N g)
    /\ run_fair_simulation N daily response secondary p days label g
       = (Ok (repeat 0 N), advance N g).
Proof.
  intros N p days daily response secondary label g Hp Hg. split.
  - apply (for_append_all_skip _ unit_draws); [| |exact Hg].
    + intros g0 Hg0. apply run_simulation_trial_skip.
      destruct (Hg0 (pos g0)). lra.
    + intros g0 Hg0. apply unit_draws_advance. exact Hg0.
  - apply (for_append_all_skip _ unit_draws); [| |exact Hg].
    + intros g0 Hg0. apply run_fair_simulation_trial_skip.
      destruct (Hg0 (pos g0)). lra.
    + intros g0 Hg0. apply unit_draws_advance. exact Hg0.
Qed.

Lemma negative_probability_gives_zeros_witness :
  run_simulation 4 [8; 12] (-1 # 10) [21; 90] (const_rng 0)
  = (Ok (repeat 0 4), advance 4 (const_rng 0))
  /\ run_fair_simulation 4 [8; 12] [25; 85] [50; 650] (-1 # 10) [21; 90] "Baseline"
       (const_rng 0)
     = (Ok (repeat 0 4), advance 4 (const_rng 0)).
Proof.
  apply (negative_probability_gives_zeros 4 (-1 # 10) [21; 90] [8; 12] [25; 85] [50; 650]
           "Baseline" (const_rng 0)).
  - lra.
  - apply unit_draws_const; lra.
Defined.

(** ** A downtime range with fewer than two elements *)

Lemma run_simulation_trial_short_range (daily : list Q) (p : Q) (days : list Q) (g : rng) :
  (length days < 2)%nat -> draws g (pos g) <= p ->
  run_simulation_trial daily p days g = (Raise IndexError, advance 1 g).
Proof.
  intros Hlen Hu. apply Qgtb_false_iff in Hu.
  unfold run_simulation_trial, bind, random. rewrite Hu.
  destruct days as [|x [|y t]]; [reflexivity | reflexivity | simpl in Hlen; lia].
Qed.

Lemma run_fair_simulation_trial_short_range
  (dl rc sl : list Q) (p : Q) (days : list Q) (g : rng) :
  (length days < 2)%nat -> draws g (pos g) <= p ->
  run_fair_simulation_trial dl rc sl p days g = (Raise IndexError, advance 1 g).
Proof.
  intros Hlen Hu. apply Qgtb_false_iff in Hu.
  unfold run_fair_simulation_trial, bind, random. rewrite Hu.
  destruct days as [|x [|y t]]; [reflexivity | reflexivity | simpl in Hlen; lia].
Qed.

(** A loop whose first [i] trials take the no-attack branch and whose
    next trial raises. *)
Lemma for_append_first_raise (body : M Q) (p : Q) (e : exn) :
  (forall g, p < draws g (pos g) -> body g = (Ok 0, advance 1 g)) ->
  (forall g, draws g (pos g) <= p -> body g = (Raise e, advance 1 g)) ->
  forall (i n : nat) (g : rng),
    (i < n)%nat ->
    (forall j, (j < i)%nat -> p < draws g (pos g + j)) ->
    draws g (pos g + i) <= p ->
    for_append n body g = (Raise e, advance (S i) g).
Proof.
  intros Hskip Hraise. induction i as [|i IH]; intros n g Hi Hbefore Hat.
  - destruct n as [|k]; [lia|]. rewrite Nat.add_0_r in Hat.
    simpl. unfold bind. rewrite (Hraise g Hat). reflexivity.
  - destruct n as [|k]; [lia|].
    assert (H0 : p < draws g (pos g)).
    { specialize (Hbefore 0%nat). rewrite Nat.add_0_r in Hbefore. apply Hbefore. lia. }
    simpl. unfold bind. rewrite (Hskip g H0).
    rewrite (IH k (advance 1 g)).
    + rewrite advance_advance. do 2 f_equal. lia.
    + lia.
    + intros j Hj. simpl. specialize (Hbefore (S j)).
      replace (S (pos g + j)) with (pos g + S j)%nat by lia. apply Hbefore. lia.
    + simpl. replace (S (pos g + i)) with (pos g + S i)%nat by lia. exact Hat.
Qed.

(** X4. A downtime range with fewer than two elements is not rejected up
    front: the run raises IndexError in the first trial whose attack
    occurs, after consuming exactly one draw per trial up to and including
    that one; no sample is returned. *)
Theorem short_days_range_raises_at_first_attack :
  forall (N i : nat) (p : Q) (days daily response secondary : list Q)
         (label : string) (g : rng),
    (length days < 2)%nat ->
    (i < N)%nat ->
    (forall j, (j < i)%nat -> p < draws g (pos g + j)) ->
    draws g (pos g + i) <= p ->
    run_simulation N daily p days g = (Raise IndexError, advance (S i) g)
    /\ run_fair_simulation N daily response secondary p days label g
       = (Raise IndexError, advance (S i) g).
Proof.
  intros N i p days daily response secondary label g Hlen Hi Hbefore Hat. split.
  - apply (for_append_first_raise _ p); try assumption.
    + intros g0 Hu. apply run_simulation_trial_skip. exact Hu.
    + intros g0 Hu. apply run_simulation_trial_short_range; assumption.
  - apply (for_append_first_raise _ p); try assumption.
    + intros g0 Hu. apply run_fair_simulation_trial_skip. exact Hu.
    + intros g0 Hu. apply run_fair_simulation_trial_short_range; assumption.
Qed.

Lemma short_days_range_raises_at_first_attack_witness :
  run_simulation 5 [8; 12] (67 # 100) [21] (cycle_rng [9 # 10; 8 # 10; 1 # 2])
  = (Raise IndexError, advance 3 (cycle_rng [9 # 10; 8 # 10; 1 # 2]))
  /\ run_fair_simulation 5 [8; 12] [25; 85] [50; 650] (67 # 100) [21] "Baseline"
       (cycle_rng [9 # 10; 8 # 10; 1 # 2])
     = (Raise IndexError, advance 3 (cycle_rng [9 # 10; 8 # 10; 1 # 2])).
Proof.
  apply (short_days_range_raises_at_first_attack 5 2 (67 # 100) [21] [8; 12]
           [25; 85] [50; 650] "Baseline" (cycle_rng [9 # 10; 8 # 10; 1 # 2])).
  - simpl. lia.
  - lia.
  - intros j Hj. destruct j as [|[|j]]; [simpl; lra | simpl; lra | lia].
  - simpl. lra.
Defined.

(** ** The same draws under a shorter downtime range *)





(** * Further properties of the statistics *)

(** ** Sums, means and extrema *)

Lemma Qnat_S (n : nat) : Qnat (S n) == Qnat n + 1.
Proof.
  unfold Qnat. replace (Z.of_nat (S n)) with (Z.of_nat n + 1)%Z by lia.
  rewrite inject_Z_plus. reflexivity.
Qed.


Lemma Qsum_between (lo hi : Q) (l : list Q) :
  Forall (fun x => lo <= x /\ x <= hi) l ->
  lo * Qnat (length l) <= Qsum l /\ Qsum l <= hi * Qnat (length l).
Proof.
  induction 1 as [|x t [Hlo Hhi] _ [IHlo IHhi]].
  - cbn [length Qsum]. change (Qnat 0) with 0. split; lra.
  - cbn [length Qsum]. rewrite Qnat_S. split; lra.
Qed.

Lemma mean_between (lo hi : Q) (l : list Q) :
  l <> [] -> Forall (fun x => lo <= x /\ x <= hi) l ->
  lo <= Qsum l / Qnat (length l) /\ Qsum l / Qnat (length l) <= hi.
Proof.
  intros Hne Hall. destruct (Qsum_between lo hi l Hall) as [Hlo Hhi].
  assert (Hn : 0 < Qnat (length l)).
  { apply Qnat_pos. destruct l; [congruence | simpl; lia]. }
  split.
  - apply Qle_shift_div_l; assumption.
  - apply Qle_shift_div_r; assumption.
Qed.

Lemma Qminb_cases (x y : Q) :
  (Qminb x y = x \/ Qminb x y = y) /\ Qminb x y <= x /\ Qminb x y <= y.
Proof.
  unfold Qminb. destruct (Qle_bool x y) eqn:E.
  - apply Qle_bool_iff in E. repeat split; auto; lra.
  - apply Qle_bool_false in E. repeat split; auto; lra.
Qed.

Lemma Qmaxb_cases (x y : Q) :
  (Qmaxb x y = x \/ Qmaxb x y = y) /\ x <= Qmaxb x y /\ y <= Qmaxb x y.
Proof.
  unfold Qmaxb. destruct (Qle_bool x y) eqn:E.
  - apply Qle_bool_iff in E. repeat split; auto; lra.
  - apply Qle_bool_false in E. repeat split; auto; lra.
Qed.

Lemma fold_min_spec (t : list Q) :
  forall x, In (fold_left Qminb t x) (x :: t)
            /\ Forall (Qle (fold_left Qminb t x)) (x :: t).
Proof.
  induction t as [|y t IH]; intro x; simpl.
  - split; [left; reflexivity | repeat constructor; lra].
  - destruct (IH (Qminb x y)) as [Hin Hall].
    destruct (Qminb_cases x y) as [Hc [Hx Hy]].
    inversion Hall as [|? ? Hm Ht]; subst.
    split.
    + destruct Hin as [Hin|Hin]; [|right; right; exact Hin].
      rewrite <- Hin. destruct Hc as [-> | ->]; [left | right; left]; reflexivity.
    + constructor; [lra|]. constructor; [lra | exact Ht].
Qed.

Lemma fold_max_spec (t : list Q) :
  forall x, In (fold_left Qmaxb t x) (x :: t)
            /\ Forall (fun z => z <= fold_left Qmaxb t x) (x :: t).
Proof.
  induction t as [|y t IH]; intro x; simpl.
  - split; [left; reflexivity | repeat constructor; lra].
  - destruct (IH (Qmaxb x y)) as [Hin Hall].
    destruct (Qmaxb_cases x y) as [Hc [Hx Hy]].
    inversion Hall as [|? ? Hm Ht]; subst.
    split.
    + destruct Hin as [Hin|Hin]; [|right; right; exact Hin].
      rewrite <- Hin. destruct Hc as [-> | ->]; [left | right; left]; reflexivity.
    + constructor; [lra|]. constructor; [lra | exact Ht].
Qed.

Lemma np_min_spec (l : list Q) :
  l <> [] -> exists m, np_min l = Ok m /\ In m l /\ Forall (Qle m) l.
Proof.
  destruct l as [|x t]; [congruence|]. intros _.
  exists (fold_left Qminb t x). split; [reflexivity | apply fold_min_spec].
Qed.

Lemma np_max_spec (l : list Q) :
  l <> [] -> exists m, np_max l = Ok m /\ In m l /\ Forall (fun z => z <= m) l.
Proof.
  destruct l as [|x t]; [congruence|]. intros _.
  exists (fold_left Qmaxb t x). split; [reflexivity | apply fold_max_spec].
Qed.

(** ** Expected loss as frequency times impact *)



(** ** Break-even of the return on investment *)



(** * Further properties of the exceedance curve *)

Lemma filter_length_perm {A : Type} (f : A -> bool) (l l' : list A) :
  Permutation l l' -> length (filter f l) = length (filter f l').
Proof.
  induction 1 as [|x l l' _ IH|x y l|l l' l'' _ IH1 _ IH2]; simpl.
  - reflexivity.
  - destruct (f x); simpl; congruence.
  - destruct (f x), (f y); reflexivity.
  - congruence.
Qed.

Lemma arange_down_In (k j : nat) : In j (arange_down k) <-> (1 <= j <= k)%nat.
Proof.
  induction k as [|k IH]; simpl.
  - split; [contradiction | lia].
  - rewrite IH. split; [intros [<-|H]; lia | intro H].
    destruct (Nat.eq_dec (S k) j); [left; assumption | right; lia].
Qed.

Lemma exceedance_probability_range (j n : nat) :
  (1 <= j <= n)%nat -> 0 < Qnat j / Qnat n /\ Qnat j / Qnat n <= 1.
Proof.
  intros [H1 H2].
  assert (Hn : 0 < Qnat n) by (apply Qnat_pos; lia).
  assert (Hj : 0 < Qnat j) by (apply Qnat_pos; lia).
  pose proof (Qnat_le j n H2) as Hle.
  split.
  - apply Qlt_shift_div_l; lra.
  - apply Qle_shift_div_r; lra.
Qed.

Lemma prob_exceed_decreasing (k n : nat) :
  (0 < n)%nat ->
  StronglySorted (fun a b => b < a) (prob_exceed_of (arange_down k) n).
Proof.
  intro Hn. assert (HnQ : 0 < Qnat n) by (apply Qnat_pos; exact Hn).
  induction k as [|k IH]; simpl; [constructor|].
  constructor; [exact IH|].
  apply Forall_forall. intros y Hy. unfold prob_exceed_of in Hy.
  apply in_map_iff in Hy. destruct Hy as (j & <- & Hj).
  apply arange_down_In in Hj.
  assert (Hlt : Qnat j < Qnat (S k)) by (apply Qnat_lt; lia).
  unfold Qdiv. apply Qmult_lt_compat_r; [apply Qinv_lt_0_compat; exact HnQ | exact Hlt].
Qed.

(** X8. When the sample has a strictly positive loss, the line added by
    [plot_lec] has one point per strictly positive loss; its ordinates
    start at (number of positive losses) / len(losses), decrease strictly
    along the curve and all lie in (0, 1]. *)
Theorem exceedance_probabilities_decrease_within_unit_interval :
  forall (losses : list Q) (label color linestyle : string) (ax : axes) (v : Q),
    In v losses -> 0 < v ->
    exists ln : line,
      plot_lec losses label color linestyle ax = (Ok tt, ax ++ [ln])
      /\ length (xdata ln) = length (impact losses)
      /\ hd 0 (ydata ln) = Qnat (length (impact losses)) / Qnat (length losses)
      /\ StronglySorted (fun a b => b < a) (ydata ln)
      /\ Forall (fun y => 0 < y /\ y <= 1) (ydata ln).
Proof.
  intros losses label color linestyle ax v Hin Hv.
  set (nz := filter (fun x => Qgtb x 0) (np_sort losses)).
  assert (Hvnz : In v nz) by (apply sorted_positive_In; split; assumption).
  assert (Hne : nz <> []) by (intro E; rewrite E in Hvnz; contradiction).
  assert (Hlen : length nz = length (impact losses)).
  { apply filter_length_perm, np_sort_perm. }
  assert (Hk : (1 <= length nz <= length losses)%nat).
  { split.
    - destruct nz; [congruence | simpl; lia].
    - rewrite Hlen. apply filter_length_le. }
  eexists. split; [apply plot_lec_plots; exact Hne|]. fold nz. simpl.
  split; [exact Hlen|].
  split; [rewrite <- Hlen; destruct (length nz); [lia | reflexivity]|].
  split; [apply prob_exceed_decreasing; lia|].
  apply Forall_forall. intros y Hy. unfold prob_exceed_of in Hy.
  apply in_map_iff in Hy. destruct Hy as (j & <- & Hj).
  apply arange_down_In in Hj. apply exceedance_probability_range. lia.
Qed.

Lemma exceedance_probabilities_decrease_within_unit_interval_witness :
  exists ln : line,
    plot_lec [0; 10; 0; 5] "Current State" "firebrick" "-" [] = (Ok tt, [] ++ [ln])
    /\ length (xdata ln) = length (impact [0; 10; 0; 5])
    /\ hd 0 (ydata ln) = Qnat (length (impact [0; 10; 0; 5])) / Qnat (length [0; 10; 0; 5])
    /\ StronglySorted (fun a b => b < a) (ydata ln)
    /\ Forall (fun y => 0 < y /\ y <= 1) (ydata ln).
Proof.
  apply (exceedance_probabilities_decrease_within_unit_interval [0; 10; 0; 5]
           "Current State" "firebrick" "-" [] 5).
  - simpl. tauto.
  - lra.
Defined.

(** * Percentiles and the console reports *)

(** ** Interpolation between order statistics *)

Lemma sorted_nth_le (s : list Q) :
  StronglySorted Qle s ->
  forall i j, (i <= j)%nat -> (j < length s)%nat -> nth i s 0 <= nth j s 0.
Proof.
  induction 1 as [|a t Ht IH Ha]; intros i j Hij Hj; [simpl in Hj; lia|].
  destruct i as [|i], j as [|j]; simpl in *; try lia.
  - lra.
  - rewrite Forall_forall in Ha. apply Ha. apply nth_In. lia.
  - apply IH; lia.
Qed.

Lemma floor_index_bounds (vi : Q) :
  0 <= vi ->
  Qnat (Z.to_nat (Qfloor vi)) <= vi /\ vi < Qnat (Z.to_nat (Qfloor vi)) + 1.
Proof.
  intro H0.
  assert (Hz : (0 <= Qfloor vi)%Z).
  { change 0%Z with (Qfloor 0). apply Qfloor_resp_le. exact H0. }
  unfold Qnat.
  replace (Z.of_nat (Z.to_nat (Qfloor vi))) with (Qfloor vi) by lia. split.
  - apply Qfloor_le.
  - pose proof (Qlt_floor vi) as Hlt. rewrite inject_Z_plus in Hlt. exact Hlt.
Qed.

Lemma floor_index_mono (v1 v2 : Q) :
  v1 <= v2 -> (Z.to_nat (Qfloor v1) <= Z.to_nat (Qfloor v2))%nat.
Proof.
  intro H. pose proof (Qfloor_resp_le v1 v2 H). lia.
Qed.

Lemma lerp_at_last (s : list Q) (vi : Q) :
  (length s - 1 <= Z.to_nat (Qfloor vi))%nat ->
  lerp_at s vi = nth (length s - 1) s 0.
Proof.
  intro H. unfold lerp_at. apply Nat.leb_le in H. rewrite H. reflexivity.
Qed.

Lemma lerp_at_inner (s : list Q) (vi : Q) :
  (Z.to_nat (Qfloor vi) < length s - 1)%nat ->
  lerp_at s vi
  = nth (Z.to_nat (Qfloor vi)) s 0
    + (nth (S (Z.to_nat (Qfloor vi))) s 0 - nth (Z.to_nat (Qfloor vi)) s 0)
      * (vi - Qnat (Z.to_nat (Qfloor vi))).
Proof.
  intro H. unfold lerp_at. apply Nat.leb_gt in H. rewrite H. reflexivity.
Qed.

Lemma lerp_at_segment (s : list Q) (vi : Q) :
  StronglySorted Qle s -> 0 <= vi ->
  (Z.to_nat (Qfloor vi) < length s - 1)%nat ->
  nth (Z.to_nat (Qfloor vi)) s 0 <= lerp_at s vi
  /\ lerp_at s vi <= nth (S (Z.to_nat (Qfloor vi))) s 0.
Proof.
  intros Hs H0 Hi. rewrite (lerp_at_inner s vi Hi).
  destruct (floor_index_bounds vi H0) as [Hlo Hhi].
  set (i := Z.to_nat (Qfloor vi)) in *.
  assert (Hd : nth i s 0 <= nth (S i) s 0) by (apply sorted_nth_le; [assumption|lia..]).
  set (a := nth i s 0) in *. set (b := nth (S i) s 0) in *.
  split; nra.
Qed.

Lemma lerp_at_between (s : list Q) (vi : Q) :
  StronglySorted Qle s -> s <> [] -> 0 <= vi ->
  nth 0 s 0 <= lerp_at s vi /\ lerp_at s vi <= nth (length s - 1) s 0.
Proof.
  intros Hs Hne H0.
  assert (Hn : (0 < length s)%nat) by (destruct s; [congruence | simpl; lia]).
  destruct (Nat.le_gt_cases (length s - 1) (Z.to_nat (Qfloor vi))) as [Hlast|Hin].
  - rewrite (lerp_at_last s vi Hlast). split; [|lra].
    apply sorted_nth_le; [assumption|lia..].
  - destruct (lerp_at_segment s vi Hs H0 Hin) as [Ha Hb]. split.
    + apply Qle_trans with (nth (Z.to_nat (Qfloor vi)) s 0); [|exact Ha].
      apply sorted_nth_le; [assumption|lia..].
    + apply Qle_trans with (nth (S (Z.to_nat (Qfloor vi))) s 0); [exact Hb|].
      apply sorted_nth_le; [assumption|lia..].
Qed.

Lemma lerp_at_mono (s : list Q) (v1 v2 : Q) :
  StronglySorted Qle s -> s <> [] -> 0 <= v1 -> v1 <= v2 ->
  lerp_at s v1 <= lerp_at s v2.
Proof.
  intros Hs Hne H0 H12.
  assert (H02 : 0 <= v2) by lra.
  assert (Hn : (0 < length s)%nat) by (destruct s; [congruence | simpl; lia]).
  pose proof (floor_index_mono v1 v2 H12) as Hfl.
  destruct (Nat.le_gt_cases (length s - 1) (Z.to_nat (Qfloor v2))) as [Hlast2|Hin2].
  - rewrite (lerp_at_last s v2 Hlast2).
    apply (lerp_at_between s v1 Hs Hne H0).
  - assert (Hin1 : (Z.to_nat (Qfloor v1) < length s - 1)%nat) by lia.
    destruct (lerp_at_segment s v1 Hs H0 Hin1) as [Ha1 Hb1].
    destruct (lerp_at_segment s v2 Hs H02 Hin2) as [Ha2 Hb2].
    destruct (Nat.eq_dec (Z.to_nat (Qfloor v1)) (Z.to_nat (Qfloor v2))) as [E|E].
    + rewrite (lerp_at_inner s v1 Hin1), (lerp_at_inner s v2 Hin2). rewrite E.
      set (i := Z.to_nat (Qfloor v2)) in *.
      assert (Hd : nth i s 0 <= nth (S i) s 0)
        by (apply sorted_nth_le; [assumption|lia..]).
      set (a := nth i s 0) in *. set (b := nth (S i) s 0) in *. nra.
    + apply Qle_trans with (nth (S (Z.to_nat (Qfloor v1))) s 0); [exact Hb1|].
      apply Qle_trans with (nth (Z.to_nat (Qfloor v2)) s 0); [|exact Ha2].
      apply sorted_nth_le; [assumption|lia..].
Qed.

Lemma np_percentile_value (poe : result npfloat) (a : list Q) (q : Q) :
  a <> [] -> 0 <= q -> q <= 100 ->
  np_percentile poe a q
  = Ok (Fin (lerp_at (np_sort a) (Qnat (length a - 1) * (q / 100)))).
Proof.
  intros Hne H0 H100. unfold np_percentile.
  apply Qgtb_false_iff in H0. apply Qgtb_false_iff in H100.
  rewrite H0, H100. simpl. destruct a; [congruence | reflexivity].
Qed.

Lemma percentile_index_nonneg (n : nat) (q : Q) : 0 <= q -> 0 <= Qnat n * (q / 100).
Proof.
  intro Hq. assert (0 <= Qnat n) by (change 0 with (Qnat 0); apply Qnat_le; lia).
  apply Qmult_le_0_compat; [assumption|]. apply Qle_shift_div_l; lra.
Qed.

Lemma percentile_index_mono (n : nat) (q1 q2 : Q) :
  q1 <= q2 -> Qnat n * (q1 / 100) <= Qnat n * (q2 / 100).
Proof.
  intro Hq. assert (0 <= Qnat n) by (change 0 with (Qnat 0); apply Qnat_le; lia).
  assert (q1 / 100 <= q2 / 100).
  { unfold Qdiv. apply Qmult_le_compat_r; [exact Hq|]. apply Qinv_le_0_compat. lra. }
  nra.
Qed.

(** A percentile of a non-empty array lies between two of its elements,
    hence between every lower and every upper bound of its elements. *)
Lemma lerp_at_sorted_bounds (a : list Q) (vi lo hi : Q) :
  a <> [] -> 0 <= vi ->
  Forall (Qle lo) a -> Forall (fun z => z <= hi) a ->
  lo <= lerp_at (np_sort a) vi /\ lerp_at (np_sort a) vi <= hi.
Proof.
  intros Hne H0 Hlo Hhi.
  assert (Hs : np_sort a <> []).
  { intro E. apply Hne. apply Permutation_nil. rewrite <- E. apply np_sort_perm. }
  assert (Hn : (0 < length (np_sort a))%nat)
    by (destruct (np_sort a); [congruence | simpl; lia]).
  destruct (lerp_at_between (np_sort a) vi (np_sort_sorted a) Hs H0) as [Ha Hb].
  rewrite Forall_forall in Hlo, Hhi.
  assert (Hin0 : In (nth 0 (np_sort a) 0) a).
  { apply Permutation_in with (np_sort a); [apply np_sort_perm|]. apply nth_In. lia. }
  assert (Hin1 : In (nth (length (np_sort a) - 1) (np_sort a) 0) a).
  { apply Permutation_in with (np_sort a); [apply np_sort_perm|]. apply nth_In. lia. }
  specialize (Hlo _ Hin0). specialize (Hhi _ Hin1). split; lra.
Qed.

(** ** The statistics of one report *)

Lemma report_statistics_ordered (poe : result npfloat) (a : list Q) :
  a <> [] ->
  exists avg p90 p95 mn mx : Q,
    np_mean a = Fin avg
    /\ np_percentile poe a 90 = Ok (Fin p90)
    /\ np_percentile poe a 95 = Ok (Fin p95)
    /\ np_min a = Ok mn /\ np_max a = Ok mx
    /\ In mn a /\ In mx a
    /\ mn <= avg /\ avg <= mx
    /\ mn <= p90 /\ p90 <= p95 /\ p95 <= mx.
Proof.
  intro Hne.
  destruct (np_min_spec a Hne) as (mn & Hmin & Hmn_in & Hmn).
  destruct (np_max_spec a Hne) as (mx & Hmax & Hmx_in & Hmx).
  assert (Hboth : Forall (fun x => mn <= x /\ x <= mx) a).
  { rewrite Forall_forall in *. intros x Hx. split; [apply Hmn | apply Hmx]; exact Hx. }
  destruct (mean_between mn mx a Hne Hboth) as [Hm1 Hm2].
  assert (Hs : np_sort a <> []).
  { intro E. apply Hne. apply Permutation_nil. rewrite <- E. apply np_sort_perm. }
  pose proof (percentile_index_nonneg (length a - 1) 90) as H90.
  pose proof (percentile_index_nonneg (length a - 1) 95) as H95.
  pose proof (percentile_index_mono (length a - 1) 90 95) as Hmono.
  assert (H90' : 0 <= Qnat (length a - 1) * (90 / 100)) by (apply H90; lra).
  assert (H95' : 0 <= Qnat (length a - 1) * (95 / 100)) by (apply H95; lra).
  assert (Hmono' : Qnat (length a - 1) * (90 / 100) <= Qnat (length a - 1) * (95 / 100))
    by (apply Hmono; lra).
  destruct (lerp_at_sorted_bounds a _ mn mx Hne H90' Hmn Hmx) as [Ha _].
  destruct (lerp_at_sorted_bounds a _ mn mx Hne H95' Hmn Hmx) as [_ Hb].
  pose proof (lerp_at_mono (np_sort a) _ _ (np_sort_sorted a) Hs H90' Hmono') as Hc.
  exists (Qsum a / Qnat (length a)),
         (lerp_at (np_sort a) (Qnat (length a - 1) * (90 / 100))),
         (lerp_at (np_sort a) (Qnat (length a - 1) * (95 / 100))), mn, mx.
  split; [apply np_mean_nonempty; exact Hne|].
  split; [apply np_percentile_value; [exact Hne | lra | lra]|].
  split; [apply np_percentile_value; [exact Hne | lra | lra]|].
  repeat (split; [assumption|]). assumption.
Qed.




(** ** The baseline script *)





(** ** The mitigation report *)

(** X11. The mitigation [print_console_report] treats its two samples
    differently.  An empty baseline sample always makes it raise.  An empty
    mitigated sample beside a non-empty baseline one raises only if
    numpy's percentile raises on an empty array; if that returns a value
    the report is produced with a NaN mitigated average and a NaN avoided
    loss. *)
Theorem mitigation_report_with_empty_sample :
  forall (percentile_of_empty : result npfloat) (impact_base impact_mit : list Q),
    (impact_base = [] ->
     exists e, MitigationReport.print_console_report percentile_of_empty
                 impact_base impact_mit = Raise e)
    /\ (impact_base <> [] -> impact_mit = [] ->
        (forall e, percentile_of_empty = Raise e ->
           MitigationReport.print_console_report percentile_of_empty
             impact_base impact_mit = Raise e)
        /\ (forall v, percentile_of_empty = Ok v ->
              exists m,
                MitigationReport.print_console_report percentile_of_empty
                  impact_base impact_mit = Ok m
                /\ MitigationReport.avg_mit m = NaN
                /\ MitigationReport.p90_mit m = v
                /\ MitigationReport.reduct_avg m = NaN)).
Proof.
  intros poe ib im. split.
  - intros ->. unfold MitigationReport.print_console_report, np_percentile. simpl.
    destruct poe as [v|e]; simpl; eexists; reflexivity.
  - intros Hne ->.
    destruct (report_statistics_ordered poe ib Hne)
      as (avg & p90 & p95 & mn & mx & Havg & H90 & H95 & Hmin & Hmax & _).
    unfold MitigationReport.print_console_report.
    rewrite Havg, H90, H95, Hmax. split.
    + intros e ->. reflexivity.
    + intros v ->. eexists. split; [reflexivity|]. simpl. repeat split.
Qed.

Lemma mitigation_report_with_empty_sample_witness :
  exists m,
    MitigationReport.print_console_report (Ok NaN) [400; 168] [] = Ok m
    /\ MitigationReport.avg_mit m = NaN
    /\ MitigationReport.p90_mit m = NaN
    /\ MitigationReport.reduct_avg m = NaN.
Proof.
  destruct (mitigation_report_with_empty_sample (Ok NaN) [400; 168] []) as [_ H].
  destruct (H ltac:(discriminate) eq_refl) as [_ H2].
  exact (H2 NaN eq_refl).
Defined.

(** * The metrics of the combined script *)




